(** * The external scanner of tree-sitter-ipynb

    A shallow embedding of [src/tree-sitter-ipynb/src/scanner.c] and the
    properties of its [scan] entry point: recognition of the cell end marker
    [# <</ipynb_nvim>>] and of content lines. *)

From Stdlib Require Import ZArith List String Ascii Bool Lia.
Import ListNotations.
Open Scope Z_scope.

(** ** Characters

    [lexer->lookahead] is an [int32_t] holding the code point under the
    cursor; the scanner compares it with [(unsigned char)] casts of C
    character constants.  Every constant of the scanner is ASCII, so a
    code point equals one of them exactly when the input holds that single
    byte. *)

Definition uchar (c : ascii) : Z := Z.of_N (N_of_ascii c).

Definition codepoints (s : string) : list Z := map uchar (list_ascii_of_string s).

Definition newline : Z := uchar "010".
Definition hash : Z := uchar "#".

(** ** Token kinds: [enum TokenType] *)

Inductive TokenType : Set :=
| CONTENT_LINE
| CELL_END.

(** [valid_symbols] is the array of booleans indexed by [TokenType]. *)
Definition ValidSymbols := TokenType -> bool.

Definition only (k : TokenType) : ValidSymbols :=
  fun k' => match k, k' with
            | CONTENT_LINE, CONTENT_LINE => true
            | CELL_END, CELL_END => true
            | _, _ => false
            end.

Definition both : ValidSymbols := fun _ => true.
Definition neither : ValidSymbols := fun _ => false.

(** ** The lexer handed in by the host *)

(** Modelled from the spec: the Input Cursor of the data model, that is the
    [TSLexer] of [tree_sitter/parser.h], a header that is not under [src/].
    The spec gives the cursor as forward-only, with a peek at the current
    character ([lookahead], the sentinel 0 at end of input) and an advance by
    one character (which stays put at end of input).  [mark_end], which the
    scanner calls and the spec only names, has the meaning tree-sitter
    documents for external scanners: it records the current position as the
    end of the token, later advances no longer extend the token, and when it
    was never called the token ends at the cursor.

    [input] is what is left to read, [position] counts the characters
    advanced over, [token_end] is the mark and [result_symbol] the token kind
    written by the scanner ([None] while it has written none). *)
Record TSLexer : Set := mkLexer {
  input : list Z;
  position : nat;
  token_end : option nat;
  result_symbol : option TokenType
}.

Definition lookahead (l : TSLexer) : Z := hd 0 (input l).

Definition lexer_advance (l : TSLexer) : TSLexer :=
  match input l with
  | [] => l
  | _ :: rest => mkLexer rest (S (position l)) (token_end l) (result_symbol l)
  end.

Definition mark_end (l : TSLexer) : TSLexer :=
  mkLexer (input l) (position l) (Some (position l)) (result_symbol l).

Definition set_result_symbol (k : TokenType) (l : TSLexer) : TSLexer :=
  mkLexer (input l) (position l) (token_end l) (Some k).

(** Where the host ends the token once the scan has returned. *)
Definition token_end_position (l : TSLexer) : nat :=
  match token_end l with
  | Some e => e
  | None => position l
  end.

(** The lexer as the host hands it over for a scan of [s]: nothing consumed,
    nothing marked, no kind written. *)
Definition lexer_at (s : list Z) : TSLexer := mkLexer s 0 None None.

(** ** The scanner *)

(** [static void advance(TSLexer *lexer)] *)
Definition advance (l : TSLexer) : TSLexer := lexer_advance l.

Definition marker : string := "# <</ipynb_nvim>>".

(** The [for] loop of [check_end_marker], from index [i] on: [m] is the part
    of the literal from [marker[i]] up to its terminating NUL. *)
Fixpoint check_end_marker_from (m : string) (l : TSLexer) : bool * TSLexer :=
  match m with
  | EmptyString => (true, l)
  | String c m' =>
      if negb (lookahead l =? uchar c) then (false, l)
      else check_end_marker_from m' (advance l)
  end.

(** [static bool check_end_marker(TSLexer *lexer)] *)
Definition check_end_marker (l : TSLexer) : bool * TSLexer :=
  check_end_marker_from marker l.

(** The loop [while (lexer->lookahead != '\n' && lexer->lookahead != 0)
    advance(lexer);].  Each test of the condition costs one unit of [fuel];
    [None] means the fuel ran out before the loop was left. *)
Fixpoint consume_until_newline (fuel : nat) (l : TSLexer) : option TSLexer :=
  match fuel with
  | O => None
  | S fuel' =>
      if negb (lookahead l =? newline) && negb (lookahead l =? 0)
      then consume_until_newline fuel' (advance l)
      else Some l
  end.

(** What follows the marker check in the [CONTENT_LINE] branch: the loop up
    to the newline, the two tests after it, and the [return false] that ends
    the function. *)
Definition consume_line (fuel : nat) (l : TSLexer) : option (bool * TSLexer) :=
  match consume_until_newline fuel l with
  | None => None
  | Some l1 =>
      if lookahead l1 =? newline then
        Some (true, set_result_symbol CONTENT_LINE (advance l1))
      else if lookahead l1 =? 0 then
        Some (true, set_result_symbol CONTENT_LINE l1)
      else Some (false, l1)
  end.

(** The body of [if (valid_symbols[CONTENT_LINE]) { ... }] followed by the
    final [return false]. *)
Definition content_line (fuel : nat) (l : TSLexer) : option (bool * TSLexer) :=
  if lookahead l =? hash then
    let (is_marker, l1) := check_end_marker (mark_end l) in
    if is_marker then Some (false, l1) else consume_line fuel l1
  else consume_line fuel l.

(** [bool tree_sitter_ipynb_external_scanner_scan(void *payload,
    TSLexer *lexer, const bool *valid_symbols)].  The result is the returned
    boolean and the lexer as the call leaves it. *)
Definition tree_sitter_ipynb_external_scanner_scan
    (fuel : nat) (valid_symbols : ValidSymbols) (l : TSLexer)
  : option (bool * TSLexer) :=
  let content l0 :=
    if valid_symbols CONTENT_LINE then content_line fuel l0
    else Some (false, l0) in
  if valid_symbols CELL_END then
    if lookahead l =? hash then
      let (matched, l1) := check_end_marker l in
      if matched then
        let l2 := if lookahead l1 =? newline then advance l1 else l1 in
        Some (true, set_result_symbol CELL_END l2)
      else content l1
    else content l
  else content l.

(** One call of the scanner, with fuel for one test of the loop condition
    per character left and one more to leave the loop. *)
Definition scan (valid_symbols : ValidSymbols) (l : TSLexer)
  : option (bool * TSLexer) :=
  tree_sitter_ipynb_external_scanner_scan (S (List.length (input l))) valid_symbols l.

(** Inputs that begin with the marker literal. *)
Definition begins_with_marker (s : list Z) : Prop :=
  exists rest, s = codepoints marker ++ rest.

(** ** Predicates of the statements *)

(** The lexer [l] moved over the characters [pre], with [rest] left to read
    and the mark and the kind as they were. *)
Definition shifted (l : TSLexer) (pre rest : list Z) : TSLexer :=
  mkLexer rest (position l + List.length pre) (token_end l) (result_symbol l).

(** A literal that holds no NUL before its terminator, as every C string. *)
Definition no_nul (m : string) : Prop := ~ In 0 (codepoints m).

(** [trace l body eol l']: from [l] to [l'] the cursor moved over [body], in
    which there is no newline, and then over [eol], which is empty or the
    newline. *)
Definition trace (l : TSLexer) (body eol : list Z) (l' : TSLexer) : Prop :=
  input l = body ++ eol ++ input l' /\
  position l' = (position l + List.length body + List.length eol)%nat /\
  ~ In newline body /\
  (eol = [] \/ eol = [newline]).

(** ** The lexer operations *)

Lemma lexer_eta (l : TSLexer) :
  l = mkLexer (input l) (position l) (token_end l) (result_symbol l).
Proof. destruct l; reflexivity. Qed.

Lemma shifted_nil (l : TSLexer) : shifted l [] (input l) = l.
Proof.
  destruct l as [i p e r]; unfold shifted; simpl.
  now rewrite Nat.add_0_r.
Qed.

Lemma shifted_shifted (l : TSLexer) (p1 r1 p2 r2 : list Z) :
  shifted (shifted l p1 r1) p2 r2 = shifted l (p1 ++ p2) r2.
Proof.
  unfold shifted; simpl. rewrite length_app, Nat.add_assoc. reflexivity.
Qed.

Lemma lookahead_nonzero (l : TSLexer) :
  lookahead l <> 0 -> exists rest, input l = lookahead l :: rest.
Proof.
  unfold lookahead. destruct (input l) as [|z rest]; simpl; intros H.
  - now contradict H.
  - now exists rest.
Qed.

Lemma advance_cons (l : TSLexer) (z : Z) (rest : list Z) :
  input l = z :: rest -> advance l = shifted l [z] rest.
Proof.
  intros H. unfold advance, lexer_advance, shifted. rewrite H. simpl.
  now rewrite Nat.add_1_r.
Qed.

(** ** The marker check *)

Lemma no_nul_inv (c : ascii) (m : string) :
  no_nul (String c m) -> uchar c <> 0 /\ no_nul m.
Proof.
  unfold no_nul, codepoints; simpl. intros H; split.
  - intros E. apply H. now left.
  - intros E. apply H. now right.
Qed.

Lemma marker_no_nul : no_nul marker.
Proof.
  unfold no_nul. vm_compute. intros H.
  repeat (destruct H as [H|H]; [discriminate H|]). exact H.
Qed.

(** The check leaves the lexer moved over a prefix [pre] of the literal: all
    of it when it answers [true], and up to the first character that differs
    from the input when it answers [false]. *)
Lemma check_end_marker_from_frame (m : string) :
  no_nul m ->
  forall (l l' : TSLexer) (b : bool),
    check_end_marker_from m l = (b, l') ->
    exists pre post,
      codepoints m = pre ++ post /\
      input l = pre ++ input l' /\
      l' = shifted l pre (input l') /\
      (b = true -> post = []) /\
      (b = false -> exists c post', post = c :: post' /\ lookahead l' <> c).
Proof.
  induction m as [|c m IH]; intros Hm l l' b H; simpl in H.
  - injection H as <- <-. exists [], []. repeat split.
    + now rewrite shifted_nil.
    + discriminate.
  - apply no_nul_inv in Hm as [Hc Hm].
    destruct (lookahead l =? uchar c) eqn:E; simpl in H.
    + apply Z.eqb_eq in E.
      destruct (lookahead_nonzero l) as [rest Hin]; [congruence|].
      rewrite (advance_cons l _ rest Hin) in H.
      destruct (IH Hm _ _ _ H) as (pre & post & Hcp & Hi & Hl & Ht & Hf).
      simpl in Hi. exists (uchar c :: pre), post. repeat split.
      * unfold codepoints in *; simpl. now rewrite Hcp.
      * rewrite Hin, E, Hi. reflexivity.
      * rewrite Hl at 1. rewrite shifted_shifted. now rewrite <- E.
      * exact Ht.
      * exact Hf.
    + injection H as <- <-. apply Z.eqb_neq in E.
      exists [], (uchar c :: codepoints m). repeat split.
      * now rewrite shifted_nil.
      * discriminate.
      * intros _. now exists (uchar c), (codepoints m).
Qed.

(** On an input that begins with the literal the check answers [true]. *)
Lemma check_end_marker_from_match (m : string) :
  forall (l : TSLexer) (rest : list Z),
    input l = codepoints m ++ rest ->
    check_end_marker_from m l = (true, shifted l (codepoints m) rest).
Proof.
  induction m as [|c m IH]; intros l rest H; simpl in *.
  - rewrite <- H. now rewrite shifted_nil.
  - unfold codepoints in H; simpl in H.
    unfold lookahead at 1. rewrite H; simpl. rewrite Z.eqb_refl; simpl.
    rewrite (advance_cons l _ _ H).
    rewrite (IH _ rest) by reflexivity.
    now rewrite shifted_shifted.
Qed.

Lemma check_end_marker_true (l l' : TSLexer) :
  check_end_marker l = (true, l') ->
  input l = codepoints marker ++ input l' /\
  l' = shifted l (codepoints marker) (input l').
Proof.
  intros H.
  destruct (check_end_marker_from_frame marker marker_no_nul _ _ _ H)
    as (pre & post & Hcp & Hi & Hl & Ht & _).
  rewrite (Ht eq_refl), app_nil_r in Hcp. subst pre. now split.
Qed.

Lemma check_end_marker_false (l l' : TSLexer) :
  check_end_marker l = (false, l') -> ~ begins_with_marker (input l).
Proof.
  intros H [rest Hr].
  unfold check_end_marker in H.
  rewrite (check_end_marker_from_match marker l rest Hr) in H. discriminate H.
Qed.

Lemma check_end_marker_iff (l : TSLexer) :
  fst (check_end_marker l) = true <-> begins_with_marker (input l).
Proof.
  split.
  - destruct (check_end_marker l) as [b l'] eqn:E; simpl. intros ->.
    apply check_end_marker_true in E as [Hi _]. now exists (input l').
  - intros [rest Hr]. unfold check_end_marker.
    now rewrite (check_end_marker_from_match marker l rest Hr).
Qed.

(** ** The loop up to the newline *)

(** Every input splits into a line body, free of newline and NUL, and a rest
    that is empty or starts with one of the two. *)
Lemma line_split (s : list Z) :
  exists body rest,
    s = body ++ rest /\ ~ In newline body /\ ~ In 0 body /\
    (hd 0 rest = newline \/ hd 0 rest = 0).
Proof.
  induction s as [|z s (body & rest & Hs & Hn & Hz & Hr)].
  - exists [], []. repeat split; auto.
  - destruct (Z.eq_dec z newline) as [En|En].
    + exists [], (z :: s). repeat split; auto.
    + destruct (Z.eq_dec z 0) as [Ez|Ez].
      * exists [], (z :: s). repeat split; auto.
      * exists (z :: body), rest. rewrite Hs. repeat split; auto.
        -- intros [E|E]; [congruence | contradiction].
        -- intros [E|E]; [congruence | contradiction].
Qed.

(** The loop stops after the line body, and fuel beyond the length of the
    body is enough for it. *)
Lemma consume_until_newline_body (body : list Z) :
  forall (fuel : nat) (l : TSLexer) (rest : list Z),
    input l = body ++ rest ->
    ~ In newline body -> ~ In 0 body ->
    hd 0 rest = newline \/ hd 0 rest = 0 ->
    (List.length body < fuel)%nat ->
    consume_until_newline fuel l = Some (shifted l body rest).
Proof.
  induction body as [|z body IH]; intros fuel l rest Hi Hn Hz Hr Hf;
    (destruct fuel as [|fuel]; [inversion Hf|]); simpl in *.
  - unfold lookahead. rewrite Hi.
    replace (negb (hd 0 rest =? newline) && negb (hd 0 rest =? 0)) with false.
    + rewrite <- Hi. now rewrite shifted_nil.
    + destruct Hr as [-> | ->]; reflexivity.
  - unfold lookahead. rewrite Hi; simpl.
    assert (z <> newline) as En by (intros E; apply Hn; now left).
    assert (z <> 0) as Ez by (intros E; apply Hz; now left).
    apply Z.eqb_neq in En, Ez. rewrite En, Ez; simpl.
    rewrite (advance_cons l z (body ++ rest) Hi).
    rewrite (IH fuel _ rest); simpl; auto; try lia.
    now rewrite shifted_shifted.
Qed.

(** A line closed by a newline: the token takes the body and the newline. *)
Lemma consume_line_newline (fuel : nat) (l : TSLexer) (body rest : list Z) :
  input l = body ++ newline :: rest ->
  ~ In newline body -> ~ In 0 body ->
  (List.length body < fuel)%nat ->
  consume_line fuel l =
  Some (true, set_result_symbol CONTENT_LINE
                (shifted l (body ++ [newline]) rest)).
Proof.
  intros Hi Hn Hz Hf. unfold consume_line.
  rewrite (consume_until_newline_body body fuel l (newline :: rest));
    auto.
  unfold lookahead at 1; simpl.
  rewrite (advance_cons _ newline rest) by reflexivity.
  now rewrite shifted_shifted.
Qed.

(** A line cut by the end of input (or by a NUL, which the scanner cannot
    tell from it): the token takes the body. *)
Lemma consume_line_eof (fuel : nat) (l : TSLexer) (body rest : list Z) :
  input l = body ++ rest ->
  ~ In newline body -> ~ In 0 body ->
  hd 0 rest = 0 ->
  (List.length body < fuel)%nat ->
  consume_line fuel l =
  Some (true, set_result_symbol CONTENT_LINE (shifted l body rest)).
Proof.
  intros Hi Hn Hz Hr Hf. unfold consume_line.
  rewrite (consume_until_newline_body body fuel l rest); auto.
  unfold lookahead; simpl. rewrite Hr. reflexivity.
Qed.

Lemma trace_refl (l : TSLexer) : trace l [] [] l.
Proof. unfold trace; simpl. repeat split; auto; lia. Qed.

Lemma trace_prepend (l l1 l' : TSLexer) (pre body eol : list Z) :
  input l = pre ++ input l1 ->
  position l1 = (position l + List.length pre)%nat ->
  ~ In newline pre ->
  trace l1 body eol l' ->
  trace l (pre ++ body) eol l'.
Proof.
  intros Hi Hp Hn (Hi' & Hp' & Hn' & He). unfold trace. repeat split.
  - rewrite Hi, Hi'. now rewrite <- app_assoc.
  - rewrite Hp', Hp, length_app. lia.
  - intros H. apply in_app_or in H as [H|H]; contradiction.
  - exact He.
Qed.

Lemma consume_line_trace (fuel : nat) (l : TSLexer) :
  (List.length (input l) < fuel)%nat ->
  exists l' body eol,
    consume_line fuel l = Some (true, l') /\ trace l body eol l' /\
    result_symbol l' = Some CONTENT_LINE /\ token_end l' = token_end l /\
    (eol = [] -> lookahead l' = 0).
Proof.
  intros Hf.
  destruct (line_split (input l)) as (body & rest & Hs & Hn & Hz & Hr).
  assert (List.length body < fuel)%nat as Hb.
  { rewrite Hs, length_app in Hf. lia. }
  assert (hd 0 rest = 0 ->
          exists l', consume_line fuel l = Some (true, l') /\
                     trace l body [] l' /\
                     result_symbol l' = Some CONTENT_LINE /\
                     token_end l' = token_end l /\ lookahead l' = 0) as Heof.
  { intros H0. eexists. split; [|split; [|split; [|split]]].
    - apply (consume_line_eof fuel l body rest); auto.
    - unfold trace; simpl. repeat split; auto; lia.
    - reflexivity.
    - reflexivity.
    - exact H0. }
  destruct Hr as [Hr|Hr].
  - destruct rest as [|z rest]; [discriminate Hr|]. simpl in Hr. subst z.
    eexists _, body, [newline]. split; [|split; [|split; [|split]]].
    + apply (consume_line_newline fuel l body rest); auto.
    + unfold trace; simpl. repeat split; auto.
      rewrite length_app; simpl; lia.
    + reflexivity.
    + reflexivity.
    + discriminate.
  - destruct (Heof Hr) as (l' & H1 & H2 & H3 & H4 & H5).
    exists l', body, []. auto.
Qed.

(** ** The two branches of the scan *)

Lemma marker_no_newline : ~ In newline (codepoints marker).
Proof.
  vm_compute. intros H.
  repeat (destruct H as [H|H]; [discriminate H|]). exact H.
Qed.

(** Whatever it answers, the marker check moves the cursor over a part of
    the line only, and touches neither the mark nor the kind. *)
Lemma check_end_marker_moves (l l' : TSLexer) (b : bool) :
  check_end_marker l = (b, l') ->
  exists pre,
    input l = pre ++ input l' /\
    position l' = (position l + List.length pre)%nat /\
    ~ In newline pre /\
    token_end l' = token_end l /\ result_symbol l' = result_symbol l.
Proof.
  intros H.
  destruct (check_end_marker_from_frame marker marker_no_nul _ _ _ H)
    as (pre & post & Hcp & Hi & Hl & _).
  exists pre. rewrite Hl; simpl. repeat split; auto.
  intros Hn. apply marker_no_newline. rewrite Hcp.
  apply in_or_app. now left.
Qed.

Lemma begins_with_marker_hash (l : TSLexer) :
  begins_with_marker (input l) -> lookahead l = hash.
Proof. intros [rest H]. unfold lookahead. now rewrite H. Qed.

(** The [CONTENT_LINE] branch answers [false] exactly on a line that begins
    with the marker, and produces a content line on every other input. *)
Lemma content_line_cases (fuel : nat) (l : TSLexer) :
  (List.length (input l) < fuel)%nat ->
  (begins_with_marker (input l) /\
   exists l', content_line fuel l = Some (false, l') /\
              trace l (codepoints marker) [] l') \/
  (~ begins_with_marker (input l) /\
   exists l' body eol,
     content_line fuel l = Some (true, l') /\ trace l body eol l' /\
     result_symbol l' = Some CONTENT_LINE /\
     (eol = [] -> lookahead l' = 0) /\
     (lookahead l <> hash -> token_end l' = token_end l)).
Proof.
  intros Hf. unfold content_line.
  destruct (lookahead l =? hash) eqn:Eh.
  - destruct (check_end_marker (mark_end l)) as [b l1] eqn:Ec.
    destruct b.
    + left. apply check_end_marker_true in Ec as [Hi Hl]. simpl in Hi.
      split; [now exists (input l1)|].
      exists l1. split; [reflexivity|].
      unfold trace; simpl. rewrite Hl at 2. simpl.
      repeat split; auto; try lia. apply marker_no_newline.
    + right. split; [exact (check_end_marker_false _ _ Ec)|].
      destruct (check_end_marker_moves _ _ _ Ec)
        as (pre & Hi & Hp & Hn & _). simpl in Hi, Hp.
      destruct (consume_line_trace fuel l1)
        as (l' & body & eol & H1 & H2 & H3 & _ & H5).
      { rewrite Hi, length_app in Hf. lia. }
      exists l', (pre ++ body), eol.
      split; [exact H1|]. split; [|split; [exact H3|split; [exact H5|]]].
      * apply (trace_prepend l l1); auto.
      * apply Z.eqb_eq in Eh. intros Hne. contradiction.
  - right. apply Z.eqb_neq in Eh.
    split; [intros Hb; apply Eh; now apply begins_with_marker_hash|].
    destruct (consume_line_trace fuel l Hf)
      as (l' & body & eol & H1 & H2 & H3 & H4 & H5).
    exists l', body, eol. auto 6.
Qed.

(** Every call returns, having moved the cursor over at most one line. *)
Lemma scan_trace (fuel : nat) (valid_symbols : ValidSymbols) (l : TSLexer) :
  (List.length (input l) < fuel)%nat ->
  exists b l' body eol,
    tree_sitter_ipynb_external_scanner_scan fuel valid_symbols l
    = Some (b, l') /\
    trace l body eol l'.
Proof.
  intros Hf.
  assert (forall l0, (List.length (input l0) < fuel)%nat ->
            exists b l' body eol,
              (if valid_symbols CONTENT_LINE then content_line fuel l0
               else Some (false, l0)) = Some (b, l') /\
              trace l0 body eol l') as Hcontent.
  { intros l0 H0. destruct (valid_symbols CONTENT_LINE).
    - destruct (content_line_cases fuel l0 H0)
        as [(_ & l' & H1 & H2) | (_ & l' & body & eol & H1 & H2 & _)];
        eauto 6.
    - exists false, l0, [], []. split; [reflexivity | apply trace_refl]. }
  unfold tree_sitter_ipynb_external_scanner_scan.
  destruct (valid_symbols CELL_END); [|now apply Hcontent].
  destruct (lookahead l =? hash); [|now apply Hcontent].
  destruct (check_end_marker l) as [b l1] eqn:Ec.
  destruct (check_end_marker_moves _ _ _ Ec) as (pre & Hi & Hp & Hn & _).
  destruct b.
  - destruct (lookahead l1 =? newline) eqn:En.
    + apply Z.eqb_eq in En.
      destruct (lookahead_nonzero l1) as [rest Hr];
        [rewrite En; discriminate|].
      rewrite En in Hr. rewrite (advance_cons _ _ _ Hr).
      eexists true, _, pre, [newline]. split; [reflexivity|].
      unfold trace; simpl. rewrite Hi, Hr. repeat split; auto; lia.
    + eexists true, _, pre, []. split; [reflexivity|].
      unfold trace; simpl. repeat split; auto; lia.
  - destruct (Hcontent l1) as (b & l' & body & eol & H1 & H2).
    { rewrite Hi, length_app in Hf. lia. }
    exists b, l', (pre ++ body), eol. split; [exact H1|].
    now apply (trace_prepend l l1).
Qed.

(** ** Properties of [scan] *)

Lemma scan_only_cell_end (l : TSLexer) :
  scan (only CELL_END) l =
  if lookahead l =? hash then
    let (matched, l1) := check_end_marker l in
    if matched then
      Some (true, set_result_symbol CELL_END
                    (if lookahead l1 =? newline then advance l1 else l1))
    else Some (false, l1)
  else Some (false, l).
Proof. reflexivity. Qed.

(** C1.  With only [CELL_END] requested, the scan succeeds with kind
    [CELL_END] exactly on the inputs that begin with the marker literal
    [# <</ipynb_nvim>>]; on every other input it fails, as it does on
    [# <</ipynb_nvi>>] and on [## <</ipynb_nvim>>]. *)
Theorem cell_end_marker_exactness :
  (forall l : TSLexer,
      (exists l', scan (only CELL_END) l = Some (true, l') /\
                  result_symbol l' = Some CELL_END)
      <-> begins_with_marker (input l)) /\
  (forall l : TSLexer,
      ~ begins_with_marker (input l) ->
      exists l', scan (only CELL_END) l = Some (false, l')) /\
  (exists l', scan (only CELL_END) (lexer_at (codepoints "# <</ipynb_nvi>>"))
              = Some (false, l')) /\
  (exists l', scan (only CELL_END) (lexer_at (codepoints "## <</ipynb_nvim>>"))
              = Some (false, l')).
Proof.
  assert (forall l, begins_with_marker (input l) ->
            exists l', scan (only CELL_END) l = Some (true, l') /\
                       result_symbol l' = Some CELL_END) as Hyes.
  { intros l Hb. rewrite scan_only_cell_end.
    rewrite (begins_with_marker_hash l Hb), Z.eqb_refl.
    destruct (check_end_marker l) as [b l1] eqn:Ec. destruct b.
    - eexists. split; reflexivity.
    - now apply check_end_marker_false in Ec. }
  assert (forall l, ~ begins_with_marker (input l) ->
            exists l', scan (only CELL_END) l = Some (false, l')) as Hno.
  { intros l Hb. rewrite scan_only_cell_end.
    destruct (lookahead l =? hash); [|now exists l].
    destruct (check_end_marker l) as [b l1] eqn:Ec. destruct b.
    - apply check_end_marker_true in Ec as [Hi _].
      contradict Hb. now exists (input l1).
    - now exists l1. }
  split; [|split; [exact Hno|split]].
  - intros l; split; [|apply Hyes].
    intros (l' & Hs & _).
    destruct (proj1 (check_end_marker_iff l)) as [rest Hr];
      [|now exists rest].
    rewrite scan_only_cell_end in Hs.
    destruct (lookahead l =? hash); [|discriminate Hs].
    destruct (check_end_marker l) as [b l1]. simpl.
    destruct b; [reflexivity | discriminate Hs].
  - eexists. vm_compute. reflexivity.
  - eexists. vm_compute. reflexivity.
Qed.

(** C3, as the code has it.  The marker literal the scanner compares against
    is exactly 17 characters long, and a check that matches moves the cursor
    over exactly those 17 characters. *)
Theorem marker_length :
  String.length marker = 17%nat /\
  forall (rest : list Z) (p : nat) (e : option nat) (r : option TokenType),
    check_end_marker (mkLexer (codepoints marker ++ rest) p e r)
    = (true, mkLexer rest (p + 17) e r).
Proof.
  split; [reflexivity|].
  intros rest p e r. unfold check_end_marker.
  rewrite (check_end_marker_from_match marker _ rest) by reflexivity.
  reflexivity.
Qed.

(** C3, as the claim states it: the literal is not 18 characters long. *)
Lemma marker_length_is_not_18 : String.length marker <> 18%nat.
Proof. vm_compute. discriminate. Qed.

(** C4.  With [CELL_END] requested, the marker followed by a newline and the
    marker followed by the end of input both give a [CELL_END] token; the
    first scan takes the newline with it (18 characters), the second needs
    none (17 characters). *)
Theorem cell_end_trailing_newline_optional (valid_symbols : ValidSymbols) :
  valid_symbols CELL_END = true ->
  scan valid_symbols (lexer_at (codepoints marker ++ [newline]))
  = Some (true, mkLexer [] 18 None (Some CELL_END)) /\
  scan valid_symbols (lexer_at (codepoints marker))
  = Some (true, mkLexer [] 17 None (Some CELL_END)).
Proof.
  intros Hv. unfold scan, tree_sitter_ipynb_external_scanner_scan.
  rewrite Hv. split; reflexivity.
Qed.

Lemma cell_end_trailing_newline_optional_witness :
  both CELL_END = true /\
  (scan both (lexer_at (codepoints marker ++ [newline]))
   = Some (true, mkLexer [] 18 None (Some CELL_END)) /\
   scan both (lexer_at (codepoints marker))
   = Some (true, mkLexer [] 17 None (Some CELL_END))).
Proof.
  split; [reflexivity|].
  apply (cell_end_trailing_newline_optional both). reflexivity.
Defined.

(** C6.  With only [CONTENT_LINE] requested, [abc] followed by the end of
    input gives a [CONTENT_LINE] token that spans exactly the three
    characters. *)
Theorem content_line_unterminated_abc :
  scan (only CONTENT_LINE) (lexer_at (codepoints "abc"))
  = Some (true, mkLexer [] 3 None (Some CONTENT_LINE)) /\
  token_end_position (mkLexer [] 3 None (Some CONTENT_LINE)) = 3%nat.
Proof. split; reflexivity. Qed.

(** C7.  With only [CONTENT_LINE] requested, a lone newline gives a
    [CONTENT_LINE] token that spans exactly that one character. *)
Theorem content_line_lone_newline :
  scan (only CONTENT_LINE) (lexer_at [newline])
  = Some (true, mkLexer [] 1 None (Some CONTENT_LINE)) /\
  token_end_position (mkLexer [] 1 None (Some CONTENT_LINE)) = 1%nat.
Proof. split; reflexivity. Qed.

(** C8.  When neither [CONTENT_LINE] nor [CELL_END] is requested the scan
    fails on every input and leaves the lexer as it found it. *)
Theorem scan_nothing_requested (valid_symbols : ValidSymbols) (l : TSLexer) :
  valid_symbols CONTENT_LINE = false ->
  valid_symbols CELL_END = false ->
  scan valid_symbols l = Some (false, l).
Proof.
  intros Hc He. unfold scan, tree_sitter_ipynb_external_scanner_scan.
  rewrite Hc, He. reflexivity.
Qed.

Lemma scan_nothing_requested_witness :
  (neither CONTENT_LINE = false /\ neither CELL_END = false) /\
  scan neither (lexer_at (codepoints marker ++ [newline]))
  = Some (false, lexer_at (codepoints marker ++ [newline])).
Proof.
  split; [split; reflexivity|].
  apply (scan_nothing_requested neither); reflexivity.
Defined.

(** C10.  When the character under the cursor is not [#], a scan that
    requests only [CELL_END] fails and leaves the cursor where it was:
    nothing is consumed. *)
Theorem cell_end_no_hash_no_advance (l : TSLexer) :
  lookahead l <> hash ->
  scan (only CELL_END) l = Some (false, l).
Proof.
  intros Hh. rewrite scan_only_cell_end.
  apply Z.eqb_neq in Hh. now rewrite Hh.
Qed.

Lemma cell_end_no_hash_no_advance_witness :
  lookahead (lexer_at (codepoints "abc" ++ [newline])) <> hash /\
  scan (only CELL_END) (lexer_at (codepoints "abc" ++ [newline]))
  = Some (false, lexer_at (codepoints "abc" ++ [newline])).
Proof.
  split; [vm_compute; discriminate|].
  apply (cell_end_no_hash_no_advance (lexer_at (codepoints "abc" ++ [newline]))).
  vm_compute. discriminate.
Defined.

Lemma scan_only_content_line (l : TSLexer) :
  scan (only CONTENT_LINE) l = content_line (S (List.length (input l))) l.
Proof. reflexivity. Qed.

(** With only [CONTENT_LINE] requested the scan fails exactly on the inputs
    that begin with the marker literal. *)
Lemma content_line_fails_iff_marker (l : TSLexer) :
  (exists l', scan (only CONTENT_LINE) l = Some (false, l'))
  <-> begins_with_marker (input l).
Proof.
  rewrite scan_only_content_line.
  destruct (content_line_cases (S (List.length (input l))) l (Nat.lt_succ_diag_r _))
    as [(Hb & l' & H1 & _) | (Hb & l' & body & eol & H1 & _)].
  - split; [trivial|]. intros _. now exists l'.
  - split; [|contradiction]. intros [l0 H0]. rewrite H1 in H0. discriminate H0.
Qed.

(** C2, on the code.  With only [CONTENT_LINE] requested, the scan of
    [# not a marker] and its newline returns [CONTENT_LINE] with the cursor
    past all 15 characters, but the end of the token stays at the mark set
    before the marker check, at offset 0: the token handed to the host is
    empty.  With both kinds requested the same line gives a token of 15
    characters.  The marker line fails, and nothing but an input that
    begins with the marker literal makes the scan fail. *)
Theorem content_line_hash_line :
  scan (only CONTENT_LINE) (lexer_at (codepoints "# not a marker" ++ [newline]))
  = Some (true, mkLexer [] 15 (Some 0%nat) (Some CONTENT_LINE)) /\
  token_end_position (mkLexer [] 15 (Some 0%nat) (Some CONTENT_LINE)) = 0%nat /\
  scan both (lexer_at (codepoints "# not a marker" ++ [newline]))
  = Some (true, mkLexer [] 15 None (Some CONTENT_LINE)) /\
  scan (only CONTENT_LINE) (lexer_at (codepoints marker ++ [newline]))
  = Some (false, mkLexer [newline] 17 (Some 0%nat) None) /\
  (forall l : TSLexer,
      (exists l', scan (only CONTENT_LINE) l = Some (false, l'))
      <-> begins_with_marker (input l)).
Proof.
  split; [reflexivity|]. split; [reflexivity|].
  split; [reflexivity|]. split; [reflexivity|].
  exact content_line_fails_iff_marker.
Qed.

(** ** Termination *)

Section Fuel.

Variables fuel fuel' : nat.

(** Once the fuel exceeds the number of characters left, its amount does
    not matter. *)
Lemma consume_until_newline_fuel (l : TSLexer) :
  (List.length (input l) < fuel)%nat ->
  (List.length (input l) < fuel')%nat ->
  consume_until_newline fuel l = consume_until_newline fuel' l.
Proof.
  intros Hf Hf'.
  destruct (line_split (input l)) as (body & rest & Hs & Hn & Hz & Hr).
  rewrite Hs, length_app in Hf, Hf'.
  rewrite (consume_until_newline_body body fuel l rest); auto; try lia.
  rewrite (consume_until_newline_body body fuel' l rest); auto; lia.
Qed.

Lemma consume_line_fuel (l : TSLexer) :
  (List.length (input l) < fuel)%nat ->
  (List.length (input l) < fuel')%nat ->
  consume_line fuel l = consume_line fuel' l.
Proof.
  intros Hf Hf'. unfold consume_line.
  now rewrite (consume_until_newline_fuel l Hf Hf').
Qed.

Lemma check_end_marker_shortens (l l' : TSLexer) (b : bool) :
  check_end_marker l = (b, l') ->
  (List.length (input l') <= List.length (input l))%nat.
Proof.
  intros H. destruct (check_end_marker_moves _ _ _ H) as (pre & Hi & _).
  rewrite Hi, length_app. lia.
Qed.

Lemma content_line_fuel (l : TSLexer) :
  (List.length (input l) < fuel)%nat ->
  (List.length (input l) < fuel')%nat ->
  content_line fuel l = content_line fuel' l.
Proof.
  intros Hf Hf'. unfold content_line.
  destruct (lookahead l =? hash); [|now apply consume_line_fuel].
  destruct (check_end_marker (mark_end l)) as [b l1] eqn:Ec.
  apply check_end_marker_shortens in Ec. simpl in Ec.
  destruct b; [reflexivity|]. apply consume_line_fuel; lia.
Qed.

Lemma scan_fuel (valid_symbols : ValidSymbols) (l : TSLexer) :
  (List.length (input l) < fuel)%nat ->
  (List.length (input l) < fuel')%nat ->
  tree_sitter_ipynb_external_scanner_scan fuel valid_symbols l
  = tree_sitter_ipynb_external_scanner_scan fuel' valid_symbols l.
Proof.
  intros Hf Hf'. unfold tree_sitter_ipynb_external_scanner_scan.
  assert (forall l0, (List.length (input l0) <= List.length (input l))%nat ->
            (if valid_symbols CONTENT_LINE then content_line fuel l0
             else Some (false, l0))
            = (if valid_symbols CONTENT_LINE then content_line fuel' l0
               else Some (false, l0))) as Hcontent.
  { intros l0 H0. destruct (valid_symbols CONTENT_LINE); [|reflexivity].
    apply content_line_fuel; lia. }
  destruct (valid_symbols CELL_END); [|now apply Hcontent].
  destruct (lookahead l =? hash); [|now apply Hcontent].
  destruct (check_end_marker l) as [b l1] eqn:Ec.
  apply check_end_marker_shortens in Ec.
  destruct b; [reflexivity | now apply Hcontent].
Qed.

End Fuel.

(** C9.  Every call of the scanner returns, for every input and every
    request set: as soon as the fuel exceeds the number of characters of the
    input, the loop is left and the result no longer depends on the fuel.
    The call moves the cursor over a part [body] of the input that holds no
    newline (a line, or what matched of the marker) and then over at most
    one newline. *)
Theorem scan_terminates
    (fuel : nat) (valid_symbols : ValidSymbols) (l : TSLexer) :
  (List.length (input l) < fuel)%nat ->
  tree_sitter_ipynb_external_scanner_scan fuel valid_symbols l
  = scan valid_symbols l /\
  exists (b : bool) (l' : TSLexer) (body eol : list Z),
    scan valid_symbols l = Some (b, l') /\
    input l = body ++ eol ++ input l' /\
    position l' = (position l + List.length body + List.length eol)%nat /\
    ~ In newline body /\
    (eol = [] \/ eol = [newline]).
Proof.
  intros Hf. split.
  - apply scan_fuel; [exact Hf | apply Nat.lt_succ_diag_r].
  - destruct (scan_trace (S (List.length (input l))) valid_symbols l
                (Nat.lt_succ_diag_r _))
      as (b & l' & body & eol & Hs & Ht).
    exists b, l', body, eol. split; [exact Hs | exact Ht].
Qed.

Lemma scan_terminates_witness :
  (List.length (input (lexer_at (codepoints "# abc" ++ [newline]))) < 20)%nat /\
  (tree_sitter_ipynb_external_scanner_scan 20 both
     (lexer_at (codepoints "# abc" ++ [newline]))
   = scan both (lexer_at (codepoints "# abc" ++ [newline])) /\
   exists (b : bool) (l' : TSLexer) (body eol : list Z),
     scan both (lexer_at (codepoints "# abc" ++ [newline])) = Some (b, l') /\
     input (lexer_at (codepoints "# abc" ++ [newline]))
     = body ++ eol ++ input l' /\
     position l'
     = (position (lexer_at (codepoints "# abc" ++ [newline]))
        + List.length body + List.length eol)%nat /\
     ~ In newline body /\
     (eol = [] \/ eol = [newline])).
Proof.
  split.
  - simpl. lia.
  - apply (scan_terminates 20 both (lexer_at (codepoints "# abc" ++ [newline]))).
    simpl. lia.
Defined.

(** * Further properties of the scanner *)

(** ** The marker check, character by character *)

Lemma check_end_marker_from_mismatch (pre : list Z) :
  forall (m : string) (l : TSLexer) (c : Z) (post rest : list Z),
    codepoints m = pre ++ c :: post ->
    input l = pre ++ rest ->
    hd 0 rest <> c ->
    check_end_marker_from m l = (false, shifted l pre rest).
Proof.
  induction pre as [|z pre IH]; intros m l c post rest Hm Hi Hd;
    (destruct m as [|c0 m]; [discriminate Hm|]);
    unfold codepoints in Hm; simpl in Hm; injection Hm as Hc Hm; simpl in *.
  - unfold lookahead. rewrite Hi, Hc.
    apply Z.eqb_neq in Hd. rewrite Hd; simpl.
    rewrite <- Hi. now rewrite shifted_nil.
  - unfold lookahead at 1. rewrite Hi; simpl. rewrite Hc, Z.eqb_refl; simpl.
    rewrite (advance_cons l z (pre ++ rest) Hi).
    rewrite (IH m _ c post rest Hm); simpl; auto.
    now rewrite shifted_shifted.
Qed.

(** X1.  The marker check stops at the first character that differs from the
    literal: when the input agrees with the literal on [pre] and then holds
    something else than the next character [c] of the literal (the end of
    input included), the check answers [false] with exactly the characters
    of [pre] consumed, the mark and the kind untouched. *)
Theorem check_end_marker_stops_at_mismatch
    (l : TSLexer) (pre post rest : list Z) (c : Z) :
  codepoints marker = pre ++ c :: post ->
  input l = pre ++ rest ->
  hd 0 rest <> c ->
  check_end_marker l
  = (false, mkLexer rest (position l + List.length pre)
                    (token_end l) (result_symbol l)).
Proof.
  intros Hm Hi Hd. unfold check_end_marker.
  now rewrite (check_end_marker_from_mismatch pre marker l c post rest).
Qed.

Lemma check_end_marker_stops_at_mismatch_witness :
  (codepoints marker = codepoints "# <</ipynb_nvi" ++ 109 :: codepoints ">>" /\
   input (lexer_at (codepoints "# <</ipynb_nvi>>"))
   = codepoints "# <</ipynb_nvi" ++ codepoints ">>" /\
   hd 0 (codepoints ">>") <> 109) /\
  check_end_marker (lexer_at (codepoints "# <</ipynb_nvi>>"))
  = (false, mkLexer (codepoints ">>") (0 + List.length (codepoints "# <</ipynb_nvi"))
                    None None).
Proof.
  split.
  - split; [reflexivity|]. split; [reflexivity | vm_compute; discriminate].
  - apply (check_end_marker_stops_at_mismatch
             (lexer_at (codepoints "# <</ipynb_nvi>>"))
             (codepoints "# <</ipynb_nvi") (codepoints ">>")
             (codepoints ">>") 109).
    + reflexivity.
    + reflexivity.
    + vm_compute; discriminate.
Defined.

(** Under [#] the check always moves the cursor, whatever it answers. *)
Lemma check_end_marker_hash_progress (l l' : TSLexer) (b : bool) :
  lookahead l = hash ->
  check_end_marker l = (b, l') ->
  exists pre,
    pre <> [] /\ input l = pre ++ input l' /\
    position l' = (position l + List.length pre)%nat /\
    (List.length pre <= 17)%nat /\
    (b = false -> (List.length pre < 17)%nat).
Proof.
  intros Hh H.
  destruct (check_end_marker_from_frame marker marker_no_nul _ _ _ H)
    as (pre & post & Hcp & Hi & Hl & Ht & Hf).
  assert (List.length pre + List.length post = 17)%nat as Hlen.
  { rewrite <- length_app, <- Hcp. reflexivity. }
  exists pre. split; [|split; [exact Hi|split; [|split]]].
  - intros ->. simpl in *. destruct b.
    + rewrite (Ht eq_refl) in Hcp. discriminate Hcp.
    + destruct (Hf eq_refl) as (c & post' & -> & Hne).
      injection Hcp as Hc _. apply Hne.
      unfold lookahead in *. rewrite <- Hi, Hh, <- Hc. reflexivity.
  - rewrite Hl. reflexivity.
  - lia.
  - intros ->. destruct (Hf eq_refl) as (c & post' & -> & _).
    simpl in Hlen. lia.
Qed.

(** ** The [CELL_END] branch *)

(** X2.  Whenever [CELL_END] is requested and the input begins with the
    marker, the scan returns [CELL_END] having consumed the 17 characters of
    the marker, and the newline as an 18th when one follows directly; what
    comes after is left unread and the mark is not touched. *)
Theorem cell_end_consumes_marker
    (valid_symbols : ValidSymbols) (l : TSLexer) (rest : list Z) :
  valid_symbols CELL_END = true ->
  input l = codepoints marker ++ rest ->
  scan valid_symbols l
  = Some (true,
          if hd 0 rest =? newline
          then mkLexer (tl rest) (position l + 18) (token_end l) (Some CELL_END)
          else mkLexer rest (position l + 17) (token_end l) (Some CELL_END)).
Proof.
  intros Hv Hi. unfold scan, tree_sitter_ipynb_external_scanner_scan.
  rewrite Hv.
  rewrite (begins_with_marker_hash l) by (now exists rest).
  rewrite Z.eqb_refl. unfold check_end_marker.
  rewrite (check_end_marker_from_match marker l rest Hi).
  change (lookahead (shifted l (codepoints marker) rest)) with (hd 0 rest).
  destruct (hd 0 rest =? newline) eqn:En; [|reflexivity].
  apply Z.eqb_eq in En.
  destruct rest as [|z rest]; [discriminate En|]. simpl in En. subst z.
  rewrite (advance_cons _ newline rest) by reflexivity.
  rewrite shifted_shifted. reflexivity.
Qed.

Lemma cell_end_consumes_marker_witness :
  (both CELL_END = true /\
   input (lexer_at (codepoints marker ++ newline :: codepoints "x = 1"))
   = codepoints marker ++ newline :: codepoints "x = 1") /\
  scan both (lexer_at (codepoints marker ++ newline :: codepoints "x = 1"))
  = Some (true, mkLexer (codepoints "x = 1") 18 None (Some CELL_END)).
Proof.
  split; [split; reflexivity|].
  apply (cell_end_consumes_marker both
           (lexer_at (codepoints marker ++ newline :: codepoints "x = 1"))
           (newline :: codepoints "x = 1")); reflexivity.
Defined.

(** X3.  A scan for [CELL_END] alone that fails under [#] does not rewind:
    it returns [false] with the cursor left after the characters [pre] that
    agreed with the marker, at the first character that differs from the
    next character [c] of the marker.  At least one and at most 16
    characters are consumed; the mark and the kind are as before. *)
Theorem cell_end_failure_keeps_partial_advance (l : TSLexer) :
  lookahead l = hash ->
  ~ begins_with_marker (input l) ->
  exists (pre post rest : list Z) (c : Z),
    codepoints marker = pre ++ c :: post /\
    input l = pre ++ rest /\
    hd 0 rest <> c /\
    (1 <= List.length pre <= 16)%nat /\
    scan (only CELL_END) l
    = Some (false, mkLexer rest (position l + List.length pre)
                           (token_end l) (result_symbol l)).
Proof.
  intros Hh Hb. rewrite scan_only_cell_end, Hh, Z.eqb_refl.
  destruct (check_end_marker l) as [b l1] eqn:Ec.
  destruct b.
  - apply check_end_marker_true in Ec as [Hi _].
    contradict Hb. now exists (input l1).
  - destruct (check_end_marker_from_frame marker marker_no_nul _ _ _ Ec)
      as (pre & post & Hcp & Hi & Hl & _ & Hf).
    destruct (Hf eq_refl) as (c & post' & -> & Hc).
    destruct (check_end_marker_hash_progress l l1 false Hh Ec)
      as (pre' & Hne & Hi' & _ & _ & Hlt).
    assert (pre' = pre) as ->
        by (apply (app_inv_tail (input l1)); congruence).
    exists pre, post', (input l1), c.
    split; [exact Hcp|]. split; [exact Hi|]. split; [exact Hc|].
    split.
    + specialize (Hlt eq_refl).
      destruct pre; [contradiction | simpl in Hlt |- *; lia].
    + rewrite Hl at 1. reflexivity.
Qed.

Lemma cell_end_failure_keeps_partial_advance_witness :
  (lookahead (lexer_at (codepoints "# <<code>>")) = hash /\
   ~ begins_with_marker (input (lexer_at (codepoints "# <<code>>")))) /\
  exists (pre post rest : list Z) (c : Z),
    codepoints marker = pre ++ c :: post /\
    input (lexer_at (codepoints "# <<code>>")) = pre ++ rest /\
    hd 0 rest <> c /\
    (1 <= List.length pre <= 16)%nat /\
    scan (only CELL_END) (lexer_at (codepoints "# <<code>>"))
    = Some (false,
            mkLexer rest
              (position (lexer_at (codepoints "# <<code>>")) + List.length pre)
              (token_end (lexer_at (codepoints "# <<code>>")))
              (result_symbol (lexer_at (codepoints "# <<code>>")))).
Proof.
  assert (~ begins_with_marker (input (lexer_at (codepoints "# <<code>>"))))
    as Hb.
  { intros [rest H]. vm_compute in H. discriminate H. }
  split; [split; [reflexivity | exact Hb]|].
  apply (cell_end_failure_keeps_partial_advance
           (lexer_at (codepoints "# <<code>>"))); [reflexivity | exact Hb].
Defined.

(** ** The [CONTENT_LINE] branch *)

(** Characters taken off the front of a line stay within its body as long as
    none of them is the character that ends the body. *)
Lemma prefix_within_body (pre : list Z) :
  forall t body rest : list Z,
    pre ++ t = body ++ rest ->
    (forall x r, rest = x :: r -> ~ In x pre) ->
    exists body2, body = pre ++ body2 /\ t = body2 ++ rest.
Proof.
  induction pre as [|z pre IH]; intros t body rest H Hx; simpl in *.
  - now exists body.
  - destruct body as [|y body]; simpl in H.
    + exfalso. apply (Hx z (pre ++ t)); [now rewrite H | now left].
    + injection H as -> H.
      destruct (IH t body rest H) as (body2 & -> & ->).
      * intros x r Hr Hin. apply (Hx x r Hr). now right.
      * now exists body2.
Qed.

Lemma lookahead_mark_end (l : TSLexer) : lookahead (mark_end l) = lookahead l.
Proof. reflexivity. Qed.

(** X4.  With only [CONTENT_LINE] requested, every input that starts with
    [#] without beginning with the marker gives a [CONTENT_LINE] result
    whose mark is the position at which the scan started, although the
    cursor has moved on: the token, which ends at the mark, is empty. *)
Theorem content_line_hash_token_is_empty (l : TSLexer) :
  lookahead l = hash ->
  ~ begins_with_marker (input l) ->
  exists l',
    scan (only CONTENT_LINE) l = Some (true, l') /\
    result_symbol l' = Some CONTENT_LINE /\
    token_end_position l' = position l /\
    (position l < position l')%nat.
Proof.
  intros Hh Hb. rewrite scan_only_content_line. unfold content_line.
  rewrite Hh, Z.eqb_refl.
  destruct (check_end_marker (mark_end l)) as [b l1] eqn:Ec.
  destruct b.
  - apply check_end_marker_true in Ec as [Hi _]. simpl in Hi.
    contradict Hb. now exists (input l1).
  - destruct (check_end_marker_hash_progress (mark_end l) l1 false Hh Ec)
      as (pre & Hne & Hi & Hp & _).
    destruct (check_end_marker_moves _ _ _ Ec) as (_ & _ & _ & _ & He & _).
    simpl in Hi, Hp, He.
    destruct (consume_line_trace (S (List.length (input l))) l1)
      as (l' & body & eol & H1 & (_ & Hp' & _) & Hr & He' & _).
    { rewrite Hi, length_app. lia. }
    exists l'. split; [exact H1|]. split; [exact Hr|]. split.
    + unfold token_end_position. now rewrite He', He.
    + destruct pre; [contradiction | simpl in Hp; lia].
Qed.

Lemma content_line_hash_token_is_empty_witness :
  (lookahead (lexer_at (codepoints "# %%" ++ [newline])) = hash /\
   ~ begins_with_marker (input (lexer_at (codepoints "# %%" ++ [newline])))) /\
  exists l',
    scan (only CONTENT_LINE) (lexer_at (codepoints "# %%" ++ [newline]))
    = Some (true, l') /\
    result_symbol l' = Some CONTENT_LINE /\
    token_end_position l'
    = position (lexer_at (codepoints "# %%" ++ [newline])) /\
    (position (lexer_at (codepoints "# %%" ++ [newline])) < position l')%nat.
Proof.
  assert (~ begins_with_marker
            (input (lexer_at (codepoints "# %%" ++ [newline])))) as Hb.
  { intros [rest H]. vm_compute in H. discriminate H. }
  split; [split; [reflexivity | exact Hb]|].
  apply (content_line_hash_token_is_empty
           (lexer_at (codepoints "# %%" ++ [newline])));
    [reflexivity | exact Hb].
Defined.

Lemma marker_hash_only_first :
  exists t, codepoints marker = hash :: t /\ ~ In hash t.
Proof.
  eexists. split; [reflexivity|]. vm_compute. intros H.
  repeat (destruct H as [H|H]; [discriminate H|]). exact H.
Qed.

(** X5.  A line closed by a newline, as the scan takes it when
    [CONTENT_LINE] is requested.  If the line does not start with [#], the
    result is [CONTENT_LINE] with exactly the body and its newline consumed,
    the rest unread and the mark untouched.  The same holds with both kinds
    requested for a line that starts with [#], holds no other [#] and does
    not begin with the marker. *)
Theorem content_line_takes_one_line
    (valid_symbols : ValidSymbols) (l : TSLexer) (body rest : list Z) :
  valid_symbols CONTENT_LINE = true ->
  input l = body ++ newline :: rest ->
  ~ In newline body -> ~ In 0 body ->
  (lookahead l <> hash ->
   scan valid_symbols l
   = Some (true, mkLexer rest (position l + List.length body + 1)
                         (token_end l) (Some CONTENT_LINE))) /\
  (valid_symbols CELL_END = true ->
   ~ In hash (tl body) -> ~ begins_with_marker (input l) ->
   scan valid_symbols l
   = Some (true, mkLexer rest (position l + List.length body + 1)
                         (token_end l) (Some CONTENT_LINE))).
Proof.
  intros Hv Hi Hn Hz.
  assert (List.length body < S (List.length (input l)))%nat as Hlen.
  { rewrite Hi, length_app. lia. }
  assert (lookahead l <> hash ->
          scan valid_symbols l
          = Some (true, mkLexer rest (position l + List.length body + 1)
                                (token_end l) (Some CONTENT_LINE))) as Hplain.
  { intros Hh. apply Z.eqb_neq in Hh.
    unfold scan, tree_sitter_ipynb_external_scanner_scan, content_line.
    rewrite Hh, Hv.
    destruct (valid_symbols CELL_END);
      (rewrite (consume_line_newline _ l body rest); auto;
       unfold set_result_symbol, shifted; simpl;
       rewrite length_app; simpl; do 3 f_equal; lia). }
  split; [exact Hplain|].
  intros He Hhash Hb.
  destruct (Z.eq_dec (lookahead l) hash) as [Hh|Hh]; [|now apply Hplain].
  unfold scan, tree_sitter_ipynb_external_scanner_scan.
  rewrite He, Hv, Hh, Z.eqb_refl.
  destruct (check_end_marker l) as [b l1] eqn:Ec.
  destruct b.
  { apply check_end_marker_true in Ec as [Hi1 _].
    contradict Hb. now exists (input l1). }
  destruct (check_end_marker_hash_progress l l1 false Hh Ec)
    as (pre & Hne & Hi1 & Hp & _).
  destruct (check_end_marker_moves _ _ _ Ec)
    as (pre' & Hi1' & _ & Hnl & Hte & Hrs).
  assert (pre' = pre) as -> by (apply (app_inv_tail (input l1)); congruence).
  destruct (prefix_within_body pre (input l1) body (newline :: rest))
    as (body2 & Hbody & Hin1).
  { congruence. }
  { intros x r Hr. injection Hr as <- _. exact Hnl. }
  assert (~ In newline body2 /\ ~ In 0 body2) as [Hn2 Hz2].
  { split; intros H; [apply Hn | apply Hz];
      rewrite Hbody; apply in_or_app; now right. }
  assert (lookahead l1 <> hash) as Hh1.
  { unfold lookahead. rewrite Hin1.
    destruct body2 as [|y body2]; simpl; [discriminate|].
    intros ->. apply Hhash. rewrite Hbody.
    destruct pre as [|p pre]; [contradiction|]. simpl.
    apply in_or_app. right. now left. }
  unfold content_line. apply Z.eqb_neq in Hh1. rewrite Hh1.
  rewrite (consume_line_newline _ l1 body2 rest); auto.
  - unfold set_result_symbol, shifted; simpl.
    rewrite Hte, Hp, Hbody, !length_app. simpl. do 3 f_equal. lia.
  - rewrite Hbody, length_app in Hlen. lia.
Qed.

Lemma content_line_takes_one_line_witness :
  (both CONTENT_LINE = true /\
   input (lexer_at (codepoints "# a comment" ++ newline :: codepoints "x = 1"))
   = codepoints "# a comment" ++ newline :: codepoints "x = 1" /\
   ~ In newline (codepoints "# a comment") /\
   ~ In 0 (codepoints "# a comment")) /\
  (both CELL_END = true /\
   ~ In hash (tl (codepoints "# a comment")) /\
   ~ begins_with_marker
       (input (lexer_at (codepoints "# a comment" ++ newline :: codepoints "x = 1")))) /\
  scan both (lexer_at (codepoints "# a comment" ++ newline :: codepoints "x = 1"))
  = Some (true, mkLexer (codepoints "x = 1")
                        (0 + List.length (codepoints "# a comment") + 1)
                        None (Some CONTENT_LINE)).
Proof.
  assert (forall z : Z, In z (codepoints "# a comment") ->
            In z [35; 32; 97; 99; 111; 109; 101; 110; 116]) as Hin.
  { intros z H. vm_compute in H. simpl.
    repeat (destruct H as [H|H]; [rewrite <- H; tauto|]). contradiction. }
  assert (forall z : Z, ~ In z [35; 32; 97; 99; 111; 109; 101; 110; 116] ->
            ~ In z (codepoints "# a comment")) as Hout
      by (intros z H H'; exact (H (Hin z H'))).
  assert (~ In newline (codepoints "# a comment")) as Hn.
  { apply Hout. vm_compute. intros H.
    repeat (destruct H as [H|H]; [discriminate H|]). exact H. }
  assert (~ In 0 (codepoints "# a comment")) as Hz.
  { apply Hout. vm_compute. intros H.
    repeat (destruct H as [H|H]; [discriminate H|]). exact H. }
  assert (~ In hash (tl (codepoints "# a comment"))) as Hh.
  { vm_compute. intros H.
    repeat (destruct H as [H|H]; [discriminate H|]). exact H. }
  assert (~ begins_with_marker
            (input (lexer_at (codepoints "# a comment" ++ newline :: codepoints "x = 1"))))
    as Hb.
  { intros [rest H]. vm_compute in H. discriminate H. }
  split; [repeat split; auto|]. split; [repeat split; auto|].
  apply (content_line_takes_one_line both
           (lexer_at (codepoints "# a comment" ++ newline :: codepoints "x = 1"))
           (codepoints "# a comment") (codepoints "x = 1")); auto.
Defined.

(** ** What a call leaves behind *)

Lemma consume_line_frame (fuel : nat) (l l' : TSLexer) (b : bool) :
  (List.length (input l) < fuel)%nat ->
  consume_line fuel l = Some (b, l') ->
  b = true /\ result_symbol l' = Some CONTENT_LINE /\
  token_end l' = token_end l /\
  (position l <= position l')%nat /\
  (lookahead l <> 0 -> (position l < position l')%nat).
Proof.
  intros Hf H.
  destruct (consume_line_trace fuel l Hf)
    as (l2 & body & eol & H1 & (Hi & Hp & _ & Heol) & Hr & He & H0).
  rewrite H1 in H. injection H as <- <-.
  repeat split; auto; try lia.
  intros Hne. destruct body as [|z body]; [|simpl in Hp; lia].
  destruct Heol as [-> | ->]; [|simpl in Hp; lia].
  simpl in Hi. contradict Hne. unfold lookahead in *.
  rewrite Hi. now apply H0.
Qed.

Lemma content_line_frame (fuel : nat) (l l' : TSLexer) (b : bool) :
  (List.length (input l) < fuel)%nat ->
  content_line fuel l = Some (b, l') ->
  (if b then result_symbol l' = Some CONTENT_LINE
   else result_symbol l' = result_symbol l) /\
  (lookahead l <> hash -> token_end l' = token_end l) /\
  (position l <= position l')%nat /\
  (b = true -> lookahead l <> 0 -> (position l < position l')%nat).
Proof.
  intros Hf H. unfold content_line in H.
  destruct (lookahead l =? hash) eqn:Eh.
  - apply Z.eqb_eq in Eh.
    destruct (check_end_marker (mark_end l)) as [b0 l1] eqn:Ec.
    destruct (check_end_marker_hash_progress (mark_end l) l1 b0 Eh Ec)
      as (pre & Hne & Hi & Hp & _).
    destruct (check_end_marker_moves _ _ _ Ec) as (_ & _ & _ & _ & _ & Hr).
    simpl in Hi, Hp, Hr.
    assert (position l < position l1)%nat as Hlt
        by (destruct pre; [contradiction | simpl in Hp; lia]).
    destruct b0.
    + injection H as <- <-.
      split; [exact Hr|]. split; [intros Hh; contradiction|].
      split; [lia | discriminate].
    + destruct (consume_line_frame fuel l1 l' b) as (-> & Hr' & _ & Hp' & _);
        auto.
      { rewrite Hi, length_app in Hf. lia. }
      split; [exact Hr'|]. split; [intros Hh; contradiction|].
      split; [lia | intros _ _; lia].
  - apply Z.eqb_neq in Eh.
    destruct (consume_line_frame fuel l l' b Hf H) as (-> & Hr & He & Hp & Hlt).
    split; [exact Hr|]. split; [intros _; exact He|].
    split; [exact Hp | intros _; exact Hlt].
Qed.

(** What every call leaves behind: the kind it wrote, the mark and the
    cursor. *)
Lemma scan_frame (valid_symbols : ValidSymbols) (l l' : TSLexer) (b : bool) :
  scan valid_symbols l = Some (b, l') ->
  (if b then exists k, result_symbol l' = Some k /\ valid_symbols k = true
   else result_symbol l' = result_symbol l) /\
  (lookahead l <> hash \/ valid_symbols CONTENT_LINE = false ->
   token_end l' = token_end l) /\
  (position l <= position l')%nat /\
  (b = true -> lookahead l <> 0 -> (position l < position l')%nat).
Proof.
  unfold scan, tree_sitter_ipynb_external_scanner_scan.
  set (fuel := S (List.length (input l))).
  assert (List.length (input l) < fuel)%nat as Hf by (unfold fuel; lia).
  clearbody fuel.
  assert (forall l0,
            (List.length (input l0) <= List.length (input l))%nat ->
            (if valid_symbols CONTENT_LINE then content_line fuel l0
             else Some (false, l0)) = Some (b, l') ->
            (if b then exists k, result_symbol l' = Some k /\
                                 valid_symbols k = true
             else result_symbol l' = result_symbol l0) /\
            (lookahead l0 <> hash \/ valid_symbols CONTENT_LINE = false ->
             token_end l' = token_end l0) /\
            (valid_symbols CONTENT_LINE = false -> l' = l0) /\
            (position l0 <= position l')%nat /\
            (b = true -> lookahead l0 <> 0 ->
             (position l0 < position l')%nat)) as Hcontent.
  { intros l0 Hl0 H. destruct (valid_symbols CONTENT_LINE) eqn:Ev.
    - destruct (content_line_frame fuel l0 l' b) as (Hr & He & Hp & Hlt);
        auto; try lia.
      split; [|split; [|split; [discriminate|split]]]; auto.
      + destruct b; [now exists CONTENT_LINE | exact Hr].
      + intros [Hh | Hv]; [auto | discriminate Hv].
    - injection H as <- <-. repeat split; auto. discriminate. }
  assert (forall l0,
            (if valid_symbols CONTENT_LINE then content_line fuel l0
             else Some (false, l0)) = Some (b, l') ->
            l0 = l ->
            (if b then exists k, result_symbol l' = Some k /\
                                 valid_symbols k = true
             else result_symbol l' = result_symbol l) /\
            (lookahead l <> hash \/ valid_symbols CONTENT_LINE = false ->
             token_end l' = token_end l) /\
            (position l <= position l')%nat /\
            (b = true -> lookahead l <> 0 ->
             (position l < position l')%nat)) as Hsame.
  { intros l0 H ->.
    destruct (Hcontent l (Nat.le_refl _) H) as (H1 & H2 & _ & H4 & H5).
    auto. }
  destruct (valid_symbols CELL_END) eqn:Ece;
    [|intros H; now apply (Hsame l)].
  destruct (lookahead l =? hash) eqn:Eh;
    [|intros H; now apply (Hsame l)].
  apply Z.eqb_eq in Eh.
  destruct (check_end_marker l) as [b0 l1] eqn:Ec.
  destruct (check_end_marker_hash_progress l l1 b0 Eh Ec)
    as (pre & Hne & Hi & Hp & _).
  destruct (check_end_marker_moves _ _ _ Ec) as (_ & _ & _ & _ & He & Hr).
  assert (position l < position l1)%nat as Hlt
      by (destruct pre; [contradiction | simpl in Hp; lia]).
  destruct b0.
  - intros H. clear Hcontent Hsame. injection H as <- <-.
    assert (position l1 <=
            position (if (lookahead l1 =? newline)%Z
                      then advance l1 else l1))%nat
      as Hadv.
    { destruct (lookahead l1 =? newline); [|lia].
      unfold advance, lexer_advance. destruct (input l1); simpl; lia. }
    assert (token_end (if lookahead l1 =? newline then advance l1 else l1)
            = token_end l1) as Hmark.
    { destruct (lookahead l1 =? newline); [|reflexivity].
      unfold advance, lexer_advance. destruct (input l1); reflexivity. }
    simpl. split; [now exists CELL_END|].
    split; [intros _; now rewrite Hmark|].
    split; [lia | intros _ _; lia].
  - intros H.
    destruct (Hcontent l1) as (H1 & H2 & H3 & H4 & H5); auto.
    { rewrite Hi, length_app. lia. }
    split; [|split; [|split]]; try lia.
    + destruct b; [exact H1 | now rewrite H1].
    + intros [Hh | Hv]; [contradiction|].
      rewrite (H3 Hv). exact He.
Qed.

(** X6.  A call that returns [true] has written a kind that was requested;
    a call that returns [false] has not written to [result_symbol]. *)
Theorem scan_writes_requested_kind
    (valid_symbols : ValidSymbols) (l l' : TSLexer) (b : bool) :
  scan valid_symbols l = Some (b, l') ->
  if b then exists k, result_symbol l' = Some k /\ valid_symbols k = true
  else result_symbol l' = result_symbol l.
Proof. intros H. exact (proj1 (scan_frame valid_symbols l l' b H)). Qed.

Lemma scan_writes_requested_kind_witness :
  scan both (lexer_at (codepoints "abc" ++ [newline]))
  = Some (true, mkLexer [] 4 None (Some CONTENT_LINE)) /\
  exists k, result_symbol (mkLexer [] 4 None (Some CONTENT_LINE)) = Some k /\
            both k = true.
Proof.
  split; [reflexivity|].
  apply (scan_writes_requested_kind both
           (lexer_at (codepoints "abc" ++ [newline]))
           (mkLexer [] 4 None (Some CONTENT_LINE)) true).
  reflexivity.
Defined.

(** X7.  The scan sets the mark nowhere but in the [CONTENT_LINE] branch
    under [#]: when the character under the cursor is not [#], or when
    [CONTENT_LINE] is not requested, the mark is after the call what it was
    before, so that a token recognised from a fresh lexer ends at the
    cursor. *)
Theorem scan_mark_untouched
    (valid_symbols : ValidSymbols) (l l' : TSLexer) (b : bool) :
  scan valid_symbols l = Some (b, l') ->
  lookahead l <> hash \/ valid_symbols CONTENT_LINE = false ->
  token_end l' = token_end l /\
  (token_end l = None -> token_end_position l' = position l').
Proof.
  intros H Hc.
  destruct (scan_frame valid_symbols l l' b H) as (_ & He & _).
  split; [now apply He|].
  intros Hn. unfold token_end_position. now rewrite (He Hc), Hn.
Qed.

Lemma scan_mark_untouched_witness :
  (scan both (lexer_at (codepoints "x = 1" ++ newline :: codepoints "y"))
   = Some (true, mkLexer (codepoints "y") 6 None (Some CONTENT_LINE)) /\
   (lookahead (lexer_at (codepoints "x = 1" ++ newline :: codepoints "y"))
    <> hash \/ both CONTENT_LINE = false)) /\
  (token_end (mkLexer (codepoints "y") 6 None (Some CONTENT_LINE))
   = token_end (lexer_at (codepoints "x = 1" ++ newline :: codepoints "y")) /\
   (token_end (lexer_at (codepoints "x = 1" ++ newline :: codepoints "y"))
    = None ->
    token_end_position (mkLexer (codepoints "y") 6 None (Some CONTENT_LINE))
    = position (mkLexer (codepoints "y") 6 None (Some CONTENT_LINE)))).
Proof.
  assert (lookahead (lexer_at (codepoints "x = 1" ++ newline :: codepoints "y"))
          <> hash) as Hh by (vm_compute; discriminate).
  split; [split; [reflexivity | now left]|].
  apply (scan_mark_untouched both
           (lexer_at (codepoints "x = 1" ++ newline :: codepoints "y"))
           (mkLexer (codepoints "y") 6 None (Some CONTENT_LINE)) true).
  - reflexivity.
  - now left.
Defined.

(** X8.  The cursor never moves backwards, and a call that returns [true]
    while a character other than NUL is under the cursor has moved it
    forwards by at least one character. *)
Theorem scan_progress
    (valid_symbols : ValidSymbols) (l l' : TSLexer) (b : bool) :
  scan valid_symbols l = Some (b, l') ->
  (position l <= position l')%nat /\
  (b = true -> lookahead l <> 0 -> (position l < position l')%nat).
Proof.
  intros H.
  destruct (scan_frame valid_symbols l l' b H) as (_ & _ & Hp & Hlt).
  now split.
Qed.

Lemma scan_progress_witness :
  scan (only CONTENT_LINE) (lexer_at [newline; newline])
  = Some (true, mkLexer [newline] 1 None (Some CONTENT_LINE)) /\
  ((position (lexer_at [newline; newline])
    <= position (mkLexer [newline] 1 None (Some CONTENT_LINE)))%nat /\
   (true = true -> lookahead (lexer_at [newline; newline]) <> 0 ->
    (position (lexer_at [newline; newline])
     < position (mkLexer [newline] 1 None (Some CONTENT_LINE)))%nat)).
Proof.
  split; [reflexivity|].
  apply (scan_progress (only CONTENT_LINE) (lexer_at [newline; newline])
           (mkLexer [newline] 1 None (Some CONTENT_LINE)) true).
  reflexivity.
Defined.

(** X9.  When [CONTENT_LINE] is requested and the lookahead is 0 (the end of
    input, or a NUL character in the input), the scan returns
    [CONTENT_LINE] without consuming anything: the lexer is left as it was
    but for the kind. *)
Theorem content_line_at_nul_consumes_nothing
    (valid_symbols : ValidSymbols) (l : TSLexer) :
  valid_symbols CONTENT_LINE = true ->
  lookahead l = 0 ->
  scan valid_symbols l = Some (true, set_result_symbol CONTENT_LINE l).
Proof.
  intros Hv H0.
  unfold scan, tree_sitter_ipynb_external_scanner_scan, content_line,
    consume_line.
  rewrite Hv. simpl consume_until_newline. rewrite H0. simpl.
  destruct (valid_symbols CELL_END); rewrite H0; reflexivity.
Qed.

Lemma content_line_at_nul_consumes_nothing_witness :
  (both CONTENT_LINE = true /\
   lookahead (lexer_at (0 :: codepoints "abc")) = 0) /\
  scan both (lexer_at (0 :: codepoints "abc"))
  = Some (true, set_result_symbol CONTENT_LINE (lexer_at (0 :: codepoints "abc"))).
Proof.
  split; [split; reflexivity|].
  apply (content_line_at_nul_consumes_nothing both
           (lexer_at (0 :: codepoints "abc"))); reflexivity.
Defined.

(** ** Both kinds requested *)

(** X10.  With both kinds requested the scan fails on exactly one shape of
    input: a part of the marker, neither empty nor the whole of it, followed
    directly by the marker.  The [CELL_END] branch consumes the part, and
    the [CONTENT_LINE] branch then finds the marker under the cursor. *)
Theorem both_requested_failure (valid_symbols : ValidSymbols) (l : TSLexer) :
  valid_symbols CELL_END = true ->
  valid_symbols CONTENT_LINE = true ->
  (exists l', scan valid_symbols l = Some (false, l')) <->
  (exists pre post rest,
      pre <> [] /\ post <> [] /\
      codepoints marker = pre ++ post /\
      input l = pre ++ codepoints marker ++ rest).
Proof.
  intros He Hv. unfold scan, tree_sitter_ipynb_external_scanner_scan.
  rewrite He, Hv.
  set (fuel := S (List.length (input l))).
  assert (List.length (input l) < fuel)%nat as Hf by (unfold fuel; lia).
  clearbody fuel. split.
  - intros [l' H].
    destruct (lookahead l =? hash) eqn:Eh.
    + apply Z.eqb_eq in Eh.
      destruct (check_end_marker l) as [b l1] eqn:Ec.
      destruct b; [discriminate H|].
      destruct (check_end_marker_from_frame marker marker_no_nul _ _ _ Ec)
        as (pre & post & Hcp & Hi & _ & _ & Hpost).
      destruct (Hpost eq_refl) as (c & post' & -> & Hc).
      destruct (content_line_cases fuel l1)
        as [([rest Hr] & _) | (_ & l2 & body & eol & H2 & _)].
      { rewrite Hi, length_app in Hf. lia. }
      * exists pre, (c :: post'), rest. repeat split; auto.
        -- intros ->. simpl in *. injection Hcp as Hcp _.
           apply Hc. unfold lookahead in *. rewrite <- Hi, Eh, <- Hcp.
           reflexivity.
        -- discriminate.
        -- now rewrite Hi, Hr.
      * rewrite H2 in H. discriminate H.
    + apply Z.eqb_neq in Eh.
      destruct (content_line_cases fuel l Hf)
        as [(Hb & _) | (_ & l2 & body & eol & H2 & _)].
      * contradict Eh. now apply begins_with_marker_hash.
      * rewrite H2 in H. discriminate H.
  - intros (pre & post & rest & Hpre & Hpost & Hcp & Hi).
    destruct marker_hash_only_first as (t & Ht & Hnot).
    destruct pre as [|p pre]; [contradiction|].
    destruct post as [|c post]; [contradiction|].
    assert (p = hash /\ t = pre ++ c :: post) as [-> Htl].
    { rewrite Ht in Hcp. simpl in Hcp. injection Hcp as <- Htl. now split. }
    assert (c <> hash) as Hc.
    { intros ->. apply Hnot. rewrite Htl. apply in_or_app. right. now left. }
    unfold lookahead at 1. rewrite Hi. simpl hd. rewrite Z.eqb_refl.
    unfold check_end_marker at 1.
    rewrite (check_end_marker_from_mismatch (hash :: pre) marker l c post
               (codepoints marker ++ rest) Hcp Hi).
    2:{ rewrite Ht. simpl. congruence. }
    unfold content_line.
    change (lookahead (shifted l (hash :: pre) (codepoints marker ++ rest)))
      with (hd 0 (codepoints marker ++ rest)).
    assert (hd 0 (codepoints marker ++ rest) = hash) as Hhd
        by (rewrite Ht; reflexivity).
    rewrite Hhd, Z.eqb_refl.
    unfold check_end_marker.
    rewrite (check_end_marker_from_match marker _ rest) by reflexivity.
    eexists. reflexivity.
Qed.

Lemma both_requested_failure_witness :
  (both CELL_END = true /\ both CONTENT_LINE = true) /\
  ((exists l',
       scan both (lexer_at (codepoints "## <</ipynb_nvim>>" ++ [newline]))
       = Some (false, l')) <->
   (exists pre post rest,
       pre <> [] /\ post <> [] /\
       codepoints marker = pre ++ post /\
       input (lexer_at (codepoints "## <</ipynb_nvim>>" ++ [newline]))
       = pre ++ codepoints marker ++ rest)).
Proof.
  split; [split; reflexivity|].
  apply (both_requested_failure both
           (lexer_at (codepoints "## <</ipynb_nvim>>" ++ [newline])));
    reflexivity.
Defined.

(** ** A last line without newline *)

Lemma consume_line_to_end (fuel : nat) (l : TSLexer) :
  ~ In newline (input l) -> ~ In 0 (input l) ->
  (List.length (input l) < fuel)%nat ->
  consume_line fuel l
  = Some (true, mkLexer [] (position l + List.length (input l))
                        (token_end l) (Some CONTENT_LINE)).
Proof.
  intros Hn Hz Hf.
  rewrite (consume_line_eof fuel l (input l) []); auto.
  now rewrite app_nil_r.
Qed.

Lemma content_line_to_end (fuel : nat) (l : TSLexer) :
  ~ In newline (input l) -> ~ In 0 (input l) ->
  (List.length (input l) < fuel)%nat ->
  ~ begins_with_marker (input l) ->
  exists e : option nat,
    content_line fuel l
    = Some (true, mkLexer [] (position l + List.length (input l)) e
                          (Some CONTENT_LINE)) /\
    (lookahead l <> hash -> e = token_end l).
Proof.
  intros Hn Hz Hf Hb. unfold content_line.
  destruct (lookahead l =? hash) eqn:Eh.
  - apply Z.eqb_eq in Eh.
    destruct (check_end_marker (mark_end l)) as [b l1] eqn:Ec.
    destruct b.
    { apply check_end_marker_true in Ec as [Hi _]. simpl in Hi.
      contradict Hb. now exists (input l1). }
    destruct (check_end_marker_moves _ _ _ Ec) as (pre & Hi & Hp & _ & He & _).
    simpl in Hi, Hp, He.
    exists (Some (position l)). split; [|intros Hne; contradiction].
    rewrite (consume_line_to_end fuel l1).
    + rewrite He, Hp, Hi, length_app. do 3 f_equal. lia.
    + intros H. apply Hn. rewrite Hi. apply in_or_app. now right.
    + intros H. apply Hz. rewrite Hi. apply in_or_app. now right.
    + rewrite Hi, length_app in Hf. lia.
  - exists (token_end l). split; [|reflexivity].
    now apply consume_line_to_end.
Qed.

(** C5, on the code.  Let [CONTENT_LINE] be requested and the input hold no
    newline (and no NUL, which the scanner reads as the end of input).  The
    scan leaves before the loop on an input that begins with the marker and,
    when [CELL_END] is requested too, on a part of the marker followed by
    the marker.  On every other input the scan returns [CONTENT_LINE] with
    the cursor at the end of the input, and the token covers all of it when
    the input does not start with [#], or when [CELL_END] is requested too
    and no [#] comes after the first character.  At an immediate end of
    input the token is empty.  But with only [CONTENT_LINE] requested, on
    [# abc] the token ends at the mark set at offset 0 and does not cover
    the 5 characters consumed. *)
Theorem content_line_at_end_of_input :
  (forall (valid_symbols : ValidSymbols) (s : list Z),
      valid_symbols CONTENT_LINE = true ->
      ~ In newline s -> ~ In 0 s ->
      ~ begins_with_marker s ->
      (valid_symbols CELL_END = true ->
       ~ exists pre post rest,
           pre <> [] /\ post <> [] /\
           codepoints marker = pre ++ post /\
           s = pre ++ codepoints marker ++ rest) ->
      exists e : option nat,
        scan valid_symbols (lexer_at s)
        = Some (true, mkLexer [] (List.length s) e (Some CONTENT_LINE)) /\
        (hd 0 s <> hash \/
         (valid_symbols CELL_END = true /\ ~ In hash (tl s)) ->
         e = None)) /\
  (forall valid_symbols : ValidSymbols,
      valid_symbols CONTENT_LINE = true ->
      scan valid_symbols (lexer_at [])
      = Some (true, mkLexer [] 0 None (Some CONTENT_LINE))) /\
  scan (only CONTENT_LINE) (lexer_at (codepoints "# abc"))
  = Some (true, mkLexer [] 5 (Some 0%nat) (Some CONTENT_LINE)) /\
  token_end_position (mkLexer [] 5 (Some 0%nat) (Some CONTENT_LINE)) = 0%nat /\
  position (mkLexer [] 5 (Some 0%nat) (Some CONTENT_LINE)) = 5%nat.
Proof.
  split; [|split; [|repeat split]].
  - intros valid_symbols s Hv Hn Hz Hb Hshape.
    unfold scan, tree_sitter_ipynb_external_scanner_scan. rewrite Hv.
    simpl input. set (fuel := S (List.length s)).
    assert (exists e : option nat,
               content_line fuel (lexer_at s)
               = Some (true, mkLexer [] (List.length s) e (Some CONTENT_LINE)) /\
               (hd 0 s <> hash -> e = None)) as Hplain.
    { destruct (content_line_to_end fuel (lexer_at s) Hn Hz) as (e & H1 & H2).
      - unfold fuel; simpl; lia.
      - exact Hb.
      - exists e. split; [exact H1|]. exact H2. }
    destruct (valid_symbols CELL_END) eqn:Ece.
    2:{ destruct Hplain as (e & H1 & H2). exists e. split; [exact H1|].
        intros [Hh | [Hc _]]; [auto | discriminate Hc]. }
    change (lookahead (lexer_at s)) with (hd 0 s).
    destruct (hd 0 s =? hash) eqn:Eh.
    2:{ apply Z.eqb_neq in Eh. destruct Hplain as (e & H1 & H2).
        exists e. split; [exact H1|]. intros _. auto. }
    apply Z.eqb_eq in Eh.
    destruct (check_end_marker (lexer_at s)) as [b l1] eqn:Ec.
    destruct b.
    { apply check_end_marker_true in Ec as [Hi _]. simpl in Hi.
      contradict Hb. now exists (input l1). }
    destruct (check_end_marker_from_frame marker marker_no_nul _ _ _ Ec)
      as (pre & post & Hcp & Hi & Hl & _ & Hf).
    destruct (Hf eq_refl) as (c & post' & -> & Hc).
    destruct (check_end_marker_hash_progress (lexer_at s) l1 false Eh Ec)
      as (pre' & Hne & Hi' & _).
    assert (pre' = pre) as ->
        by (apply (app_inv_tail (input l1)); congruence).
    simpl in Hi.
    assert (position l1 = List.length pre /\ token_end l1 = None) as [Hp He]
        by (rewrite Hl; split; reflexivity).
    destruct (content_line_to_end fuel l1) as (e & H1 & H2).
    + intros H. apply Hn. rewrite Hi. apply in_or_app. now right.
    + intros H. apply Hz. rewrite Hi. apply in_or_app. now right.
    + unfold fuel. rewrite Hi, length_app. lia.
    + intros [rest Hr]. apply (Hshape eq_refl).
      exists pre, (c :: post'), rest.
      split; [exact Hne|]. split; [discriminate|]. split; [exact Hcp|].
      now rewrite Hi, Hr.
    + exists e. split.
      * rewrite H1, Hp, Hi, length_app. reflexivity.
      * intros [Hh | [_ Hh]]; [contradiction|].
        rewrite <- He. apply H2. unfold lookahead.
        destruct pre as [|p pre]; [contradiction|].
        rewrite Hi in Hh. simpl in Hh.
        destruct (input l1) as [|y t]; simpl; [discriminate|].
        intros ->. apply Hh. apply in_or_app. right. now left.
  - intros valid_symbols Hv.
    unfold scan, tree_sitter_ipynb_external_scanner_scan. rewrite Hv.
    destruct (valid_symbols CELL_END); reflexivity.
Qed.

Lemma content_line_at_end_of_input_witness :
  (both CONTENT_LINE = true /\
   ~ In newline (codepoints "# abc") /\ ~ In 0 (codepoints "# abc") /\
   ~ begins_with_marker (codepoints "# abc") /\
   (both CELL_END = true ->
    ~ exists pre post rest,
        pre <> [] /\ post <> [] /\
        codepoints marker = pre ++ post /\
        codepoints "# abc" = pre ++ codepoints marker ++ rest)) /\
  exists e : option nat,
    scan both (lexer_at (codepoints "# abc"))
    = Some (true, mkLexer [] (List.length (codepoints "# abc")) e
                          (Some CONTENT_LINE)) /\
    (hd 0 (codepoints "# abc") <> hash \/
     (both CELL_END = true /\ ~ In hash (tl (codepoints "# abc"))) ->
     e = None).
Proof.
  assert (forall z : Z, z <> 35 -> z <> 32 -> z <> 97 -> z <> 98 -> z <> 99 ->
            ~ In z (codepoints "# abc")) as Habc.
  { intros z H1 H2 H3 H4 H5 H. vm_compute in H.
    repeat (destruct H as [H|H]; [congruence|]). exact H. }
  assert (~ In newline (codepoints "# abc")) as Hn
      by (apply Habc; vm_compute; discriminate).
  assert (~ In 0 (codepoints "# abc")) as Hz
      by (apply Habc; vm_compute; discriminate).
  assert (~ begins_with_marker (codepoints "# abc")) as Hb.
  { intros [rest H]. vm_compute in H. discriminate H. }
  assert (both CELL_END = true ->
          ~ exists pre post rest,
              pre <> [] /\ post <> [] /\
              codepoints marker = pre ++ post /\
              codepoints "# abc" = pre ++ codepoints marker ++ rest) as Hs.
  { intros _ (pre & post & rest & _ & _ & _ & H).
    apply (f_equal (@List.length Z)) in H.
    rewrite !length_app in H.
    change (List.length (codepoints "# abc")) with 5%nat in H.
    change (List.length (codepoints marker)) with 17%nat in H. lia. }
  split; [repeat split; auto|].
  apply (proj1 content_line_at_end_of_input both (codepoints "# abc"));
    auto.
Defined.
